(** * The blog's deployment workflow and its YouTube embed component

    A shallow embedding of
      - [.github/workflows/prod_deploy.yml]: the workflow as the data the
        YAML declares, and an interpreter of the GitHub Actions rules the
        workflow relies on: an event starts a run when [on:] names it and
        its branch filter passes; a job starts when the jobs it [needs]
        have succeeded and is skipped otherwise; the steps of a job run in
        order and stop at the first failure; a [run:] script stops at the
        first command that exits with a status other than 0; a
        [concurrency] group with [cancel-in-progress] cancels the runs a
        new run supersedes; a [permissions] block grants what it lists and
        nothing else;
      - [content/components/Youtube/Youtube.tsx]: the [YoutubeEmbed]
        component as a function from its props to an element tree.

    What a run cannot decide (whether an action's download or credentials
    work, the exit status of a command, what the build writes, the status
    the site answers with) is a parameter, [World]; every theorem about
    runs holds for every world.

    The workflow file holds two revisions of the workflow.  The later one
    (with the upload step, the [check_gh_deploy] job and the AWS job
    commented out) is [prod_deploy]; the earlier one is [prod_deploy_v1]. *)

From Stdlib Require Import List String Ascii ZArith Bool Lia.
Import ListNotations.
Local Open Scope string_scope.
Set Warnings "-register-all".

(** ** Association lists with string keys (YAML mappings keep their order) *)

Fixpoint assoc {A : Type} (k : string) (m : list (string * A)) : option A :=
  match m with
  | [] => None
  | (k', v) :: rest => if String.eqb k k' then Some v else assoc k rest
  end.

Definition has_key {A : Type} (k : string) (m : list (string * A)) : bool :=
  match assoc k m with Some _ => true | None => false end.

(** ** The workflow file as data *)

Record Step := mkStep {
  step_name : string;
  step_id : option string;
  step_uses : option string;
  (** the lines of a [run: |] block, empty when the step has no [run] *)
  step_run : list string;
  step_with : list (string * string)
}.

Record Job := mkJob {
  job_key : string;
  job_environment : list (string * string);
  job_runs_on : option string;
  job_needs : list string;
  job_permissions : option (list (string * string));
  job_steps : list Step
}.

Record Concurrency := mkConcurrency {
  group : string;
  cancel_in_progress : bool
}.

Record Workflow := mkWorkflow {
  wf_name : string;
  (** [on:] maps an event name to the mapping written under it *)
  wf_on : list (string * list (string * list string));
  wf_permissions : option (list (string * string));
  wf_concurrency : option Concurrency;
  wf_jobs : list Job
}.

Definition uses (name : string) (id : option string) (action : string)
    (args : list (string * string)) : Step :=
  mkStep name id (Some action) [] args.

Definition runs (name : string) (script : list string) : Step :=
  mkStep name None None script [].

(** The double quote character, for the JSON text of a [with:] value. *)
Definition dq : string := String "034"%char EmptyString.

Module Steps.

Definition checkout : Step :=
  uses "Checkout" None "actions/checkout@v2" [].

Definition use_node : Step :=
  uses "Use Node.js" None "actions/setup-node@v2" [("node-version", "18")].

Definition build : Step :=
  runs "Build" ["npm ci --legacy-peer-deps"; "npm run build"].

Definition setup_pages : Step :=
  uses "Setup Pages" (Some "pages") "actions/configure-pages@v1"
       [("static_site_generator", "gatsby")].

Definition upload_artifact : Step :=
  uses "Upload artifact" None "actions/upload-pages-artifact@v1"
       [("path", "./public")].

Definition deploy_to_pages : Step :=
  uses "Deploy to GitHub Pages" (Some "deployment") "actions/deploy-pages@v1" [].

Definition check_page : Step :=
  uses "Check github.io page" None "lakuapik/gh-actions-http-status@v1"
       [("expected", "[200]");
        ("sites", "[" ++ dq ++ "https://phteven.space/" ++ dq ++ "]")].

Definition get_artifact : Step :=
  uses "Get artifact from build step" (Some "download_artifact")
       "actions/download-artifact@v3" [("name", "github-pages")].

Definition aws_credentials : Step :=
  uses "Configure AWS Credentials" None "aws-actions/configure-aws-credentials@v1"
       [("aws-access-key-id", "${{ secrets.AWS_ACCESS_KEY_ID }}");
        ("aws-secret-access-key", "${{ secrets.AWS_SECRET_ACCESS_KEY }}");
        ("aws-region", "${{secrets.REGION}}")].

Definition change_directory : Step :=
  runs "change directory" ["cd ${{steps.download_artifact.outputs.download-path}}"].

Definition unzip_archive : Step :=
  runs "unzip archive" ["tar -xf archive.tar"].

Definition check_files : Step :=
  runs "check files" ["ls"].

Definition aws_deploy : Step :=
  uses "Deploy" None "jonelantha/gatsby-s3-action@v1"
       [("dest-s3-bucket", "${{secrets.BUCKET_NAME}}")].

End Steps.

Definition pages_environment : list (string * string) :=
  [("name", "github-pages"); ("url", "${{ steps.deployment.outputs.page_url }}")].

(** [on:] as the file indents it: [workflow_dispatch:] sits at the depth of
    [branches:], so it is a key of the [push] mapping. *)
Definition on_events : list (string * list (string * list string)) :=
  [("push", [("branches", ["main"]); ("workflow_dispatch", [])])].

Definition permissions : list (string * string) :=
  [("contents", "read"); ("pages", "write"); ("id-token", "write")].

Definition concurrency : Concurrency :=
  {| group := "pages"; cancel_in_progress := true |}.

Module Jobs.

Definition build : Job :=
  mkJob "build" [] (Some "ubuntu-22.04") [] None
        [Steps.checkout; Steps.use_node; Steps.build; Steps.setup_pages;
         Steps.upload_artifact].

Definition deploy_pages : Job :=
  mkJob "deploy_pages" pages_environment (Some "ubuntu-22.04") ["build"] None
        [Steps.deploy_to_pages].

Definition check_gh_deploy : Job :=
  mkJob "check_gh_deploy" [] (Some "ubuntu-22.04") ["deploy_pages"] None
        [Steps.check_page].

(** The job the file keeps behind [#] at its end. *)
Definition deploy_aws : Job :=
  mkJob "deploy_aws" [] (Some "ubuntu-22.04") ["build"] None
        [Steps.get_artifact; Steps.aws_credentials; Steps.change_directory;
         Steps.unzip_archive; Steps.check_files; Steps.aws_deploy].

End Jobs.

(** The earlier revision's jobs: no upload step, and an uncommented
    [deploy_aws] with neither [runs-on] nor [needs]. *)
Module JobsV1.

Definition build : Job :=
  mkJob "build" [] (Some "ubuntu-22.04") [] None
        [Steps.checkout; Steps.use_node; Steps.build; Steps.setup_pages].

Definition deploy_pages : Job :=
  mkJob "deploy_pages" pages_environment (Some "ubuntu-latest") ["build"] None
        [Steps.deploy_to_pages].

Definition deploy_aws : Job :=
  mkJob "deploy_aws" [] None [] None [Steps.aws_credentials; Steps.aws_deploy].

End JobsV1.

Definition prod_deploy : Workflow :=
  mkWorkflow "Deploy code" on_events (Some permissions) (Some concurrency)
             [Jobs.build; Jobs.deploy_pages; Jobs.check_gh_deploy].

Definition prod_deploy_v1 : Workflow :=
  mkWorkflow "Deploy code" on_events (Some permissions) (Some concurrency)
             [JobsV1.build; JobsV1.deploy_pages; JobsV1.deploy_aws].

(** The workflow with the commented [deploy_aws] job uncommented: both
    publish targets enabled. *)
Definition prod_deploy_with_aws : Workflow :=
  mkWorkflow "Deploy code" on_events (Some permissions) (Some concurrency)
             [Jobs.build; Jobs.deploy_pages; Jobs.check_gh_deploy; Jobs.deploy_aws].

(** The workflow with the Pages jobs left out and [deploy_aws] uncommented:
    the second publish target alone. *)
Definition prod_deploy_aws_only : Workflow :=
  mkWorkflow "Deploy code" on_events (Some permissions) (Some concurrency)
             [Jobs.build; Jobs.deploy_aws].

(** ** Triggers *)

Inductive GitRef :=
| Branch (name : string)
| Tag (name : string).

Record Event := mkEvent {
  ev_name : string;
  ev_ref : GitRef
}.

(** The [branches] and [tags] filters of an event.  The only pattern of the
    file, [main], has no glob character, so a pattern is compared as a
    name.  With neither filter every ref passes; with one of them a ref of
    the other kind does not. *)
Definition filter_accepts (filters : list (string * list string)) (r : GitRef) : bool :=
  match assoc "branches" filters, assoc "tags" filters with
  | None, None => true
  | bs, ts =>
      match r with
      | Branch b =>
          match bs with Some pats => existsb (String.eqb b) pats | None => false end
      | Tag t =>
          match ts with Some pats => existsb (String.eqb t) pats | None => false end
      end
  end.

(** An event starts a run when its name is a key of [on:] and its ref
    passes that key's filters. *)
Definition triggers (wf : Workflow) (e : Event) : bool :=
  match assoc (ev_name e) (wf_on wf) with
  | Some filters => filter_accepts filters (ev_ref e)
  | None => false
  end.

Definition push_to (branch : string) : Event := mkEvent "push" (Branch branch).
Definition manual_dispatch (branch : string) : Event :=
  mkEvent "workflow_dispatch" (Branch branch).

(** ** Permissions of the run's token *)

Inductive Access := NoAccess | Read | Write.

Definition access_of (level : string) : Access :=
  if String.eqb level "write" then Write
  else if String.eqb level "read" then Read
  else NoAccess.

(** A job's [permissions] replace the workflow's; a scope a [permissions]
    block leaves out is granted nothing; with no block at all the
    repository's default applies. *)
Definition token_permission (repo_default : string -> Access) (wf : Workflow)
    (j : Job) (scope : string) : Access :=
  let declared :=
    match job_permissions j with
    | Some ps => Some ps
    | None => wf_permissions wf
    end in
  match declared with
  | Some ps =>
      match assoc scope ps with
      | Some level => access_of level
      | None => NoAccess
      end
  | None => repo_default scope
  end.

Definition can_write (a : Access) : bool :=
  match a with Write => true | _ => false end.

(** ** The embed component *)

Module Youtube.

Inductive PropValue :=
| PStr (s : string)
| PBool (b : bool).

Inductive Element :=
| Elem (tag : string) (props : list (string * PropValue)) (children : list Element).

Record Props := mkProps {
  embed_id : string;
  title : string
}.

Definition YoutubeEmbed (props : Props) : Element :=
  Elem "div" [("className", PStr "react-live-wrapper")]
    [Elem "iframe"
       [("src", PStr ("https://www.youtube.com/embed/" ++ embed_id props));
        ("width", PStr "100%");
        ("height", PStr "500");
        ("frameBorder", PStr "0");
        ("allow", PStr "accelerometer; autoplay; clipboard-write; encrypted-media; gyroscope; picture-in-picture");
        ("allowFullScreen", PBool true);
        ("title", PStr (title props))]
       []].

Definition props_of (e : Element) : list (string * PropValue) :=
  match e with Elem _ ps _ => ps end.

Definition children_of (e : Element) : list Element :=
  match e with Elem _ _ cs => cs end.

Definition get_prop (name : string) (e : Element) : option PropValue :=
  assoc name (props_of e).

(** Every element of the tree with the given tag, in document order. *)
Fixpoint find_elements (tag : string) (e : Element) : list Element :=
  match e with
  | Elem t _ cs =>
      ((if String.eqb t tag then [e] else [])
         ++ flat_map (find_elements tag) cs)%list
  end.

(** The tree with the values of the named props blanked: what is left is
    the layout. *)
Fixpoint blank (names : list string) (e : Element) : Element :=
  match e with
  | Elem t ps cs =>
      Elem t
        (map (fun kv : string * PropValue =>
                if existsb (String.eqb (fst kv)) names then (fst kv, PStr "") else kv) ps)
        (map (blank names) cs)
  end.

Definition embed_base : string := "https://www.youtube.com/embed/".

End Youtube.

(** ** JSON arrays in [with:] values

    The status-check action takes its [sites] and [expected] inputs as the
    text of a JSON array of strings or of numbers. *)

Module Json.

Inductive Token :=
| TOpen
| TClose
| TComma
| TString (s : string)
| TNumber (n : Z).

Inductive LexState :=
| Idle
| InString (acc : string)
| InNumber (n : Z).

Definition is_digit (c : ascii) : bool :=
  (48 <=? nat_of_ascii c)%nat && (nat_of_ascii c <=? 57)%nat.

Definition digit_value (c : ascii) : Z := Z.of_nat (nat_of_ascii c - 48).

Definition push (t : Token) (r : option (list Token)) : option (list Token) :=
  option_map (cons t) r.

(** No escapes inside strings, no signs, fractions or exponents. *)
Fixpoint lex (st : LexState) (s : string) : option (list Token) :=
  match s with
  | EmptyString =>
      match st with
      | Idle => Some []
      | InNumber n => Some [TNumber n]
      | InString _ => None
      end
  | String c rest =>
      let idle : option (list Token) :=
        if Ascii.eqb c "["%char then push TOpen (lex Idle rest)
        else if Ascii.eqb c "]"%char then push TClose (lex Idle rest)
        else if Ascii.eqb c ","%char then push TComma (lex Idle rest)
        else if Ascii.eqb c " "%char then lex Idle rest
        else if Ascii.eqb c "034"%char then lex (InString "") rest
        else if is_digit c then lex (InNumber (digit_value c)) rest
        else None in
      match st with
      | Idle => idle
      | InString acc =>
          if Ascii.eqb c "034"%char then push (TString acc) (lex Idle rest)
          else if Ascii.eqb c "\"%char then None
          else lex (InString (acc ++ String c "")) rest
      | InNumber n =>
          if is_digit c then lex (InNumber (10 * n + digit_value c)) rest
          else push (TNumber n) idle
      end
  end.

Definition is_value (t : Token) : bool :=
  match t with
  | TString _ | TNumber _ => true
  | _ => false
  end.

Fixpoint elements (ts : list Token) : option (list Token) :=
  match ts with
  | v :: sep :: rest =>
      if is_value v then
        match sep with
        | TClose => match rest with [] => Some [v] | _ => None end
        | TComma => option_map (cons v) (elements rest)
        | _ => None
        end
      else None
  | _ => None
  end.

Definition parse_array (s : string) : option (list Token) :=
  match lex Idle s with
  | Some [TOpen; TClose] => Some []
  | Some (TOpen :: ts) => elements ts
  | _ => None
  end.

Fixpoint strings_of (ts : list Token) : option (list string) :=
  match ts with
  | [] => Some []
  | TString s :: rest => option_map (cons s) (strings_of rest)
  | _ => None
  end.

Fixpoint numbers_of (ts : list Token) : option (list Z) :=
  match ts with
  | [] => Some []
  | TNumber n :: rest => option_map (cons n) (numbers_of rest)
  | _ => None
  end.

Definition string_array (s : string) : option (list string) :=
  match parse_array s with Some ts => strings_of ts | None => None end.

Definition number_array (s : string) : option (list Z) :=
  match parse_array s with Some ts => numbers_of ts | None => None end.

End Json.

(** ** Running the workflow *)

(** A directory tree: path and contents of each file. *)
Definition Tree := list (string * string).

(** What a run cannot decide by itself. *)
Record World := mkWorld {
  (** the repository at the triggering commit *)
  w_checkout : Tree;
  (** job key, step name: whether the action's own machinery (download of
      the action, network, credentials) works *)
  w_action_ok : string -> string -> bool;
  (** exit status of a shell command line *)
  w_exit : string -> Z;
  (** what [npm run build] writes to [./public] from the checked-out tree *)
  w_gatsby : Tree -> Tree;
  (** the HTTP status a URL answers with *)
  w_status : string -> Z
}.

(** The machine of one job: every job starts on a fresh one. *)
Record Runner := mkRunner {
  r_files : Tree;
  r_dirs : list (string * Tree)
}.

Definition fresh_runner : Runner := mkRunner [] [].

(** What outlives a job: the run's artifacts, the two hosting targets, and
    a record of the requests sent and of the steps started. *)
Record Platform := mkPlatform {
  artifacts : list (string * Tree);
  pages_site : Tree;
  s3_bucket : Tree;
  http_log : list (string * string);
  trace : list (string * string)
}.

Definition start_of_run (pages s3 : Tree) : Platform :=
  mkPlatform [] pages s3 [] [].

Definition add_artifact (name : string) (t : Tree) (p : Platform) : Platform :=
  mkPlatform ((name, t) :: artifacts p) (pages_site p) (s3_bucket p) (http_log p) (trace p).

Definition set_pages (t : Tree) (p : Platform) : Platform :=
  mkPlatform (artifacts p) t (s3_bucket p) (http_log p) (trace p).

Definition set_s3 (t : Tree) (p : Platform) : Platform :=
  mkPlatform (artifacts p) (pages_site p) t (http_log p) (trace p).

Definition log_requests (rs : list (string * string)) (p : Platform) : Platform :=
  mkPlatform (artifacts p) (pages_site p) (s3_bucket p) (http_log p ++ rs)%list (trace p).

Definition log_step (job step : string) (p : Platform) : Platform :=
  mkPlatform (artifacts p) (pages_site p) (s3_bucket p) (http_log p) (trace p ++ [(job, step)])%list.

Definition pages_artifact : string := "github-pages".

(** Modelled from the spec: the action [lakuapik/gh-actions-http-status] is
    not part of the repository.  It sends one GET request per site and
    succeeds when every site answers with the status expected for it. *)
Definition http_status_check (w : World) (args : list (string * string))
    (p : Platform) : bool * Platform :=
  match assoc "sites" args, assoc "expected" args with
  | Some sites_text, Some expected_text =>
      match Json.string_array sites_text, Json.number_array expected_text with
      | Some sites, Some expected =>
          (Nat.eqb (List.length sites) (List.length expected)
           && forallb (fun se : string * Z => Z.eqb (w_status w (fst se)) (snd se))
                      (combine sites expected),
           log_requests (map (fun u => ("GET", u)) sites) p)
      | _, _ => (false, p)
      end
  | _, _ => (false, p)
  end.

(** The effect of each action the workflow names; an action without a
    modelled effect (setup-node, configure-pages, AWS credentials) leaves
    the state as it is. *)
Definition exec_action (w : World) (action : string) (args : list (string * string))
    (r : Runner) (p : Platform) : bool * Runner * Platform :=
  if String.eqb action "actions/checkout@v2" then
    (true, mkRunner (w_checkout w) (r_dirs r), p)
  else if String.eqb action "actions/upload-pages-artifact@v1" then
    match assoc "path" args with
    | Some path =>
        match assoc path (r_dirs r) with
        | Some t => (true, r, add_artifact pages_artifact t p)
        | None => (false, r, p)
        end
    | None => (false, r, p)
    end
  else if String.eqb action "actions/deploy-pages@v1" then
    match assoc pages_artifact (artifacts p) with
    | Some t => (true, r, set_pages t p)
    | None => (false, r, p)
    end
  else if String.eqb action "lakuapik/gh-actions-http-status@v1" then
    let '(ok, p') := http_status_check w args p in (ok, r, p')
  else if String.eqb action "actions/download-artifact@v3" then
    match assoc "name" args with
    | Some name =>
        match assoc name (artifacts p) with
        | Some t => (true, mkRunner (r_files r) ((".", t) :: r_dirs r), p)
        | None => (false, r, p)
        end
    | None => (false, r, p)
    end
  else if String.eqb action "jonelantha/gatsby-s3-action@v1" then
    match assoc "./public" (r_dirs r) with
    | Some t => (true, r, set_s3 t p)
    | None => (false, r, p)
    end
  else (true, r, p).

(** The one command with a modelled effect: the Gatsby build writes
    [./public]. *)
Definition command_effect (w : World) (cmd : string) (r : Runner) : Runner :=
  if String.eqb cmd "npm run build" then
    mkRunner (r_files r) (("./public", w_gatsby w (r_files r)) :: r_dirs r)
  else r.

(** A [run:] script under the default shell ([bash -e]): the first command
    that exits with a status other than 0 ends the script in failure. *)
Fixpoint run_script (w : World) (cmds : list string) (r : Runner) : bool * Runner :=
  match cmds with
  | [] => (true, r)
  | c :: rest =>
      if Z.eqb (w_exit w c) 0 then run_script w rest (command_effect w c r)
      else (false, r)
  end.

Definition exec_step (w : World) (job : string) (s : Step) (r : Runner)
    (p : Platform) : bool * Runner * Platform :=
  let p := log_step job (step_name s) p in
  match step_uses s with
  | Some action =>
      if w_action_ok w job (step_name s) then exec_action w action (step_with s) r p
      else (false, r, p)
  | None =>
      let '(ok, r') := run_script w (step_run s) r in (ok, r', p)
  end.

(** Steps run in order; after a failed step the rest of the job's steps do
    not start (no step of the file has an [if:]). *)
Fixpoint run_steps (w : World) (job : string) (steps : list Step) (r : Runner)
    (p : Platform) : bool * Platform :=
  match steps with
  | [] => (true, p)
  | s :: rest =>
      let '(ok, r', p') := exec_step w job s r p in
      if ok then run_steps w job rest r' p' else (false, p')
  end.

Definition run_job (w : World) (j : Job) (p : Platform) : bool * Platform :=
  run_steps w (job_key j) (job_steps j) fresh_runner p.

Inductive Conclusion := Success | Failure | Skipped.

Definition Results := list (string * Conclusion).

Inductive Readiness := Waiting | Ready | Blocked.

(** A job starts once every job it [needs] has succeeded, and is skipped
    when one of them failed or was skipped (no job of the file has an
    [if:]). *)
Fixpoint readiness (res : Results) (needs : list string) : Readiness :=
  match needs with
  | [] => Ready
  | n :: rest =>
      match assoc n res with
      | None => Waiting
      | Some Success => readiness res rest
      | Some _ =>
          match readiness res rest with
          | Waiting => Waiting
          | _ => Blocked
          end
      end
  end.

(** One pass over the jobs that have not concluded. *)
Fixpoint sweep (w : World) (js : list Job) (res : Results) (p : Platform)
    : list Job * Results * Platform :=
  match js with
  | [] => ([], res, p)
  | j :: rest =>
      match readiness res (job_needs j) with
      | Waiting =>
          let '(waiting, res', p') := sweep w rest res p in (j :: waiting, res', p')
      | Blocked => sweep w rest (res ++ [(job_key j, Skipped)])%list p
      | Ready =>
          let '(ok, p') := run_job w j p in
          sweep w rest (res ++ [(job_key j, if ok then Success else Failure)])%list p'
      end
  end.

Fixpoint schedule (w : World) (fuel : nat) (js : list Job) (res : Results)
    (p : Platform) : list Job * Results * Platform :=
  match fuel with
  | O => (js, res, p)
  | S fuel' =>
      let '(waiting, res', p') := sweep w js res p in
      match waiting with
      | [] => ([], res', p')
      | _ => schedule w fuel' waiting res' p'
      end
  end.

(** A run of the workflow against the hosting targets as they are when it
    starts: the jobs left without a conclusion, the conclusions, and the
    state it leaves. *)
Definition run_workflow (w : World) (wf : Workflow) (pages s3 : Tree)
    : list Job * Results * Platform :=
  schedule w (List.length (wf_jobs wf)) (wf_jobs wf) [] (start_of_run pages s3).

Definition results_of (x : list Job * Results * Platform) : Results := snd (fst x).
Definition state_of (x : list Job * Results * Platform) : Platform := snd x.
Definition unconcluded (x : list Job * Results * Platform) : list Job := fst (fst x).

Definition conclusion_eqb (a b : Conclusion) : bool :=
  match a, b with
  | Success, Success | Failure, Failure | Skipped, Skipped => true
  | _, _ => false
  end.

(** A run fails when one of its jobs fails. *)
Definition run_failed (res : Results) : bool :=
  existsb (fun jc : string * Conclusion => conclusion_eqb (snd jc) Failure) res.

Definition started (job step : string) (p : Platform) : bool :=
  existsb (fun e : string * string => String.eqb (fst e) job && String.eqb (snd e) step)
          (trace p).

Definition job_started (job : string) (p : Platform) : bool :=
  existsb (fun e : string * string => String.eqb (fst e) job) (trace p).

(** The jobs that publish, and the steps that build. *)
Definition is_publish_step (s : Step) : bool :=
  match step_uses s with
  | Some a => String.eqb a "actions/deploy-pages@v1"
              || String.eqb a "jonelantha/gatsby-s3-action@v1"
  | None => false
  end.

Definition is_publish_job (j : Job) : bool := existsb is_publish_step (job_steps j).

Definition is_build_step (s : Step) : bool :=
  existsb (fun c => String.eqb c "npm run build" || String.prefix "npm ci" c) (step_run s).

Definition is_aws_step (s : Step) : bool :=
  match step_uses s with
  | Some a => String.prefix "aws-actions/" a
              || String.eqb a "jonelantha/gatsby-s3-action@v1"
  | None => false
  end.

(** ** Runs of the workflow and its concurrency group

    The platform's queue of runs of one workflow.  With a [concurrency]
    block a new run of a group either cancels the runs of the group that
    are in progress or pending ([cancel-in-progress: true]), or waits as
    the group's one pending run behind the run in progress. *)

Inductive RunStatus := Pending | InProgress | Completed | Cancelled.

Record Run := mkRun {
  run_id : nat;
  run_group : option string;
  run_status : RunStatus
}.

Definition in_group (g : string) (r : Run) : bool :=
  match run_group r with
  | Some g' => String.eqb g g'
  | None => false
  end.

Definition is_active (r : Run) : bool :=
  match run_status r with InProgress => true | _ => false end.

Definition is_pending (r : Run) : bool :=
  match run_status r with Pending => true | _ => false end.

Definition with_status (s : RunStatus) (r : Run) : Run :=
  mkRun (run_id r) (run_group r) s.

Definition cancel_if (test : Run -> bool) (r : Run) : Run :=
  if test r then with_status Cancelled r else r.

(** A new run takes the next free number. *)
Definition enqueue (wf : Workflow) (q : list Run) : list Run :=
  let id := List.length q in
  match wf_concurrency wf with
  | None => (q ++ [mkRun id None InProgress])%list
  | Some c =>
      let g := group c in
      if cancel_in_progress c then
        (map (cancel_if (fun r => in_group g r && (is_active r || is_pending r))) q
           ++ [mkRun id (Some g) InProgress])%list
      else if existsb (fun r => in_group g r && is_active r) q then
        (map (cancel_if (fun r => in_group g r && is_pending r)) q
           ++ [mkRun id (Some g) Pending])%list
      else (q ++ [mkRun id (Some g) InProgress])%list
  end.

Definition status_of (id : nat) (q : list Run) : option RunStatus :=
  option_map run_status (find (fun r => Nat.eqb (run_id r) id) q).

(** The run in progress completes, and the pending run of its group, if
    there is one, starts. *)
Definition finish (id : nat) (q : list Run) : list Run :=
  match find (fun r => Nat.eqb (run_id r) id) q with
  | Some r =>
      if is_active r then
        map (fun r' =>
               if Nat.eqb (run_id r') id then with_status Completed r'
               else
                 match run_group r with
                 | Some g =>
                     if in_group g r' && is_pending r' then with_status InProgress r'
                     else r'
                 | None => r'
                 end) q
      else q
  | None => q
  end.

Inductive SchedEvent :=
| Fire (e : Event)
| Finish (id : nat).

Definition sched_step (wf : Workflow) (q : list Run) (ev : SchedEvent) : list Run :=
  match ev with
  | Fire e => if triggers wf e then enqueue wf q else q
  | Finish id => finish id q
  end.

Definition sched_run (wf : Workflow) (evs : list SchedEvent) (q : list Run) : list Run :=
  fold_left (sched_step wf) evs q.

(** The queues the platform can be in, from the empty one. *)
Inductive reachable (wf : Workflow) : list Run -> Prop :=
| reach_empty : reachable wf []
| reach_step q ev : reachable wf q -> reachable wf (sched_step wf q ev).

Definition active_in (g : string) (q : list Run) : nat :=
  List.length (filter (fun r => in_group g r && is_active r) q).

(** The runs a new run of the group replaces. *)
Definition superseded (c : Concurrency) (r : Run) : bool :=
  in_group (group c) r && (is_active r || is_pending r).

(** What every queue of a workflow that cancels in progress satisfies:
    runs are numbered by position, all are in the group, none is pending
    and at most one is in progress. *)
Definition queue_ok (g : string) (q : list Run) : Prop :=
  map run_id q = seq 0 (List.length q)
  /\ Forall (fun r => run_group r = Some g /\ is_pending r = false) q
  /\ active_in g q <= 1.

(** ** Reading a whole run *)

(** The steps of the workflow in the order of the file. *)
Definition file_order (wf : Workflow) : list (string * string) :=
  flat_map (fun j => map (fun s => (job_key j, step_name s)) (job_steps j)) (wf_jobs wf).

(** Whether the world lets a step through: its action works, or every
    command of its script exits with 0. *)
Definition step_ok (w : World) (job : string) (s : Step) : bool :=
  match step_uses s with
  | Some _ => w_action_ok w job (step_name s)
  | None => forallb (fun c => Z.eqb (w_exit w c) 0) (step_run s)
  end.

Definition all_steps_ok (w : World) (wf : Workflow) : bool :=
  forallb (fun j => forallb (step_ok w (job_key j)) (job_steps j)) (wf_jobs wf).

(** ** Worlds to run the definitions in *)

Module Worlds.

Definition sources : Tree := [("content/posts/foo.mdx", "# foo")].
Definition site_of (t : Tree) : Tree := map (fun f => (fst f, "<html>")) t.

(** Everything works and the site answers 200. *)
Definition fine : World :=
  mkWorld sources (fun _ _ => true) (fun _ => 0%Z) site_of (fun _ => 200%Z).

(** Dependency installation fails. *)
Definition npm_ci_fails : World :=
  mkWorld sources (fun _ _ => true)
          (fun c => if String.eqb c "npm ci --legacy-peer-deps" then 1%Z else 0%Z)
          site_of (fun _ => 200%Z).

(** The published site answers 503. *)
Definition site_down : World :=
  mkWorld sources (fun _ _ => true) (fun _ => 0%Z) site_of (fun _ => 503%Z).

(** The Pages deployment is refused. *)
Definition pages_refused : World :=
  mkWorld sources (fun j _ => negb (String.eqb j "deploy_pages"))
          (fun _ => 0%Z) site_of (fun _ => 200%Z).

(** The checkout fails. *)
Definition checkout_fails : World :=
  mkWorld sources (fun j s => negb (String.eqb s "Checkout"))
          (fun _ => 0%Z) site_of (fun _ => 200%Z).

Definition old_site : Tree := [("index.html", "<html>old")].

End Worlds.

(** * Properties *)

(** ** Association lists and strings *)

Lemma substring_all (s : string) : substring 0 (String.length s) s = s.
Proof.
  induction s as [| c s IH]; simpl; [reflexivity |].
  now rewrite IH.
Qed.

(** ** Triggers *)

Lemma triggers_on_events (wf : Workflow) (e : Event) :
  wf_on wf = on_events ->
  triggers wf e = true <-> e = push_to "main".
Proof.
  intros Hon. unfold triggers. rewrite Hon. destruct e as [name ref].
  unfold on_events, push_to. cbn [assoc ev_name ev_ref].
  destruct (String.eqb_spec name "push") as [-> | Hname].
  - unfold filter_accepts. cbn [assoc String.eqb Ascii.eqb Bool.eqb].
    destruct ref as [b | t]; cbn [existsb].
    + rewrite orb_false_r. destruct (String.eqb_spec b "main") as [-> | Hb].
      * split; trivial.
      * split; [discriminate | intros [= ->]; now elim Hb].
    + split; discriminate.
  - split; [discriminate | intros [= -> _]; now elim Hname].
Qed.

(** What the [on:] block of the file lets through: a push to [main], and
    nothing else, in both revisions. *)
Lemma triggers_exactly_push_main (e : Event) :
  (triggers prod_deploy e = true <-> e = push_to "main")
  /\ (triggers prod_deploy_v1 e = true <-> e = push_to "main").
Proof. split; now apply triggers_on_events. Qed.

Lemma push_to_main_starts_a_run : triggers prod_deploy (push_to "main") = true.
Proof. reflexivity. Qed.

Lemma push_elsewhere_starts_no_run (b : string) :
  b <> "main" -> triggers prod_deploy (push_to b) = false.
Proof.
  intros Hb. destruct (triggers prod_deploy (push_to b)) eqn:E; [| reflexivity].
  apply triggers_exactly_push_main in E. injection E as ->. now elim Hb.
Qed.

Lemma tag_push_starts_no_run (t : string) :
  triggers prod_deploy (mkEvent "push" (Tag t)) = false.
Proof. reflexivity. Qed.

(** C4, at the input where the file departs from it: a manual dispatch
    starts no run, on any branch and in either revision, because
    [workflow_dispatch] is not an event of [on:] but a key under [push]. *)
Theorem manual_dispatch_starts_no_run (b : string) :
  triggers prod_deploy (manual_dispatch b) = false
  /\ triggers prod_deploy_v1 (manual_dispatch b) = false
  /\ has_key "workflow_dispatch" (wf_on prod_deploy) = false
  /\ option_map (has_key "workflow_dispatch") (assoc "push" (wf_on prod_deploy)) = Some true.
Proof. repeat split. Qed.

(** ** The embed component *)

Module YoutubeFacts.
Import Youtube.

Lemma src_suffix (id : string) :
  substring (String.length embed_base) (String.length id) (embed_base ++ id) = id.
Proof. cbn. apply substring_all. Qed.

(** C5: for every identifier and title the component returns one frame
    inside the wrapper; the frame's [src] is the host's embed address
    followed by the identifier as given (so the identifier can be read
    back from it, and distinct identifiers give distinct addresses), its
    [title] is the title as given, and everything else in the tree is the
    same whatever the props are. *)
Theorem YoutubeEmbed_frame (id t : string) :
  let e := YoutubeEmbed (mkProps id t) in
  exists frame,
    e = Elem "div" [("className", PStr "react-live-wrapper")] [frame]
    /\ find_elements "iframe" e = [frame]
    /\ children_of frame = []
    /\ get_prop "src" frame = Some (PStr ("https://www.youtube.com/embed/" ++ id))
    /\ get_prop "title" frame = Some (PStr t)
    /\ get_prop "width" frame = Some (PStr "100%")
    /\ get_prop "height" frame = Some (PStr "500")
    /\ substring 30 (String.length id) ("https://www.youtube.com/embed/" ++ id) = id
    /\ (forall id' t',
          get_prop "src" frame
            = get_prop "src" (hd frame (children_of (YoutubeEmbed (mkProps id' t')))) ->
          id = id')
    /\ (forall id' t',
          blank ["src"; "title"] e
            = blank ["src"; "title"] (YoutubeEmbed (mkProps id' t'))).
Proof.
  intros e. eexists. split; [reflexivity |].
  split; [reflexivity |]. split; [reflexivity |].
  split; [reflexivity |]. split; [reflexivity |].
  split; [reflexivity |]. split; [reflexivity |].
  split; [apply (src_suffix id) |].
  split.
  - intros id' t' H. cbn [get_prop props_of assoc String.eqb Ascii.eqb Bool.eqb] in H.
    cbn [YoutubeEmbed children_of hd props_of assoc String.eqb Ascii.eqb Bool.eqb
         embed_id] in H.
    injection H as H. exact H.
  - intros id' t'. reflexivity.
Qed.

End YoutubeFacts.

(** ** The interpreter, for any workflow *)

Lemma readiness_ready (res : Results) (needs : list string) :
  readiness res needs = Ready <-> Forall (fun n => assoc n res = Some Success) needs.
Proof.
  induction needs as [| n needs IH]; cbn [readiness].
  - split; [constructor | reflexivity].
  - destruct (assoc n res) as [[| |] |] eqn:E.
    + rewrite IH. split; [now constructor | now inversion 1].
    + split; [destruct (readiness res needs); discriminate | inversion 1; congruence].
    + split; [destruct (readiness res needs); discriminate | inversion 1; congruence].
    + split; [discriminate | inversion 1; congruence].
Qed.

Lemma exec_action_keeps_site (w : World) (action : string) (args : list (string * string))
    (r : Runner) (p : Platform) :
  action <> "actions/deploy-pages@v1" ->
  pages_site (snd (exec_action w action args r p)) = pages_site p.
Proof.
  intros Hne. unfold exec_action, http_status_check.
  repeat match goal with
         | |- context [String.eqb action ?a] =>
             destruct (String.eqb_spec action a); [try contradiction |]
         | |- context [match ?o with Some _ => _ | None => _ end] => destruct o
         end; reflexivity.
Qed.

Lemma exec_step_keeps_site (w : World) (job : string) (s : Step) (r : Runner) (p : Platform) :
  step_uses s <> Some "actions/deploy-pages@v1" ->
  pages_site (snd (exec_step w job s r p)) = pages_site p.
Proof.
  intros Hne. unfold exec_step. destruct (step_uses s) as [a |].
  - destruct (w_action_ok w job (step_name s)); [| reflexivity].
    rewrite exec_action_keeps_site; [reflexivity | congruence].
  - now destruct (run_script w (step_run s) r).
Qed.

(** A job none of whose steps deploys to Pages leaves the site as it
    found it, whether it succeeds or fails. *)
Lemma run_steps_keeps_site (w : World) (job : string) (steps : list Step) :
  Forall (fun s => step_uses s <> Some "actions/deploy-pages@v1") steps ->
  forall r p, pages_site (snd (run_steps w job steps r p)) = pages_site p.
Proof.
  induction 1 as [| s steps Hs _ IH]; intros r p; cbn [run_steps]; [reflexivity |].
  pose proof (exec_step_keeps_site w job s r p Hs) as Hstep.
  destruct (exec_step w job s r p) as [[ok r'] p']. cbn [snd] in Hstep.
  destruct ok; [now rewrite IH | exact Hstep].
Qed.

(** The steps a job starts are a prefix of its steps, all of them when it
    succeeds. *)
Lemma run_steps_trace (w : World) (job : string) (steps : list Step) :
  forall r p,
    exists n,
      trace (snd (run_steps w job steps r p))
      = (trace p ++ map (fun s => (job, step_name s)) (firstn n steps))%list
      /\ (fst (run_steps w job steps r p) = true -> n = List.length steps).
Proof.
  induction steps as [| s steps IH]; intros r p; cbn [run_steps].
  - exists 0. split; [now rewrite app_nil_r | reflexivity].
  - assert (Hstep : trace (snd (exec_step w job s r p))
                    = (trace p ++ [(job, step_name s)])%list).
    { unfold exec_step. destruct (step_uses s) as [a |].
      - destruct (w_action_ok w job (step_name s)); [| reflexivity].
        unfold exec_action, http_status_check.
        repeat match goal with
               | |- context [String.eqb a ?b] => destruct (String.eqb a b)
               | |- context [match ?o with Some _ => _ | None => _ end] => destruct o
               end; reflexivity.
      - now destruct (run_script w (step_run s) r). }
    destruct (exec_step w job s r p) as [[ok r'] p']. cbn [snd] in Hstep.
    destruct ok.
    + destruct (IH r' p') as (n & Htr & Hn). exists (S n). split.
      * rewrite Htr, Hstep, <- app_assoc. reflexivity.
      * intros Hok. cbn [List.length]. f_equal. now apply Hn.
    + exists 1. cbn [snd fst firstn map]. split; [now rewrite Hstep | discriminate].
Qed.

(** ** Runs of the workflow

    A run is evaluated against an arbitrary world by asking the world, in
    the order the run does, for the outcome the run is waiting for. *)

Ltac world_eval_in H :=
  lazy -[Z.eqb w_action_ok w_exit w_status w_gatsby w_checkout] in H.

Ltac world_whnf_in H :=
  match type of H with
  | ?x = ?t =>
      let t' := eval lazy head beta iota zeta delta
                  -[Z.eqb w_action_ok w_exit w_status w_gatsby w_checkout run_job] in t in
      change (x = t') in H
  end.

(** An answer the world has given is used again; a new question splits the
    proof. *)
Ltac answer H t :=
  first
    [ match goal with A : t = _ |- _ => rewrite A in H end
    | let E := fresh "Ans" in destruct t eqn:E ].

(** A job that is due is evaluated apart, and its outcome put back. *)
Ltac ask_world H :=
  world_whnf_in H;
  lazymatch type of H with
  | context [run_job ?w ?j ?p] =>
      let y := fresh "y" in
      let Hy := fresh "Hy" in
      remember (run_job w j p) as y eqn:Hy in H;
      unfold run_job in Hy;
      repeat ask_world Hy;
      world_eval_in Hy;
      subst y
  | context [w_action_ok ?w ?j ?s] =>
      let j' := eval lazy in j in
      let s' := eval lazy in s in
      change (w_action_ok w j s) with (w_action_ok w j' s') in H;
      answer H (w_action_ok w j' s')
  | context [Z.eqb (w_exit ?w ?c) ?n] =>
      let c' := eval lazy in c in
      let n' := eval lazy in n in
      change (Z.eqb (w_exit w c) n) with (Z.eqb (w_exit w c') n') in H;
      answer H (Z.eqb (w_exit w c') n')
  | context [Z.eqb (w_status ?w ?u) ?n] =>
      let u' := eval lazy in u in
      let n' := eval lazy in n in
      change (Z.eqb (w_status w u) n) with (Z.eqb (w_status w u') n') in H;
      answer H (Z.eqb (w_status w u') n')
  end.

(** Splits the goal into the courses the evaluation of [t] can take. *)
Ltac eval_cases t :=
  let x := fresh "x" in
  let Hx := fresh "Hx" in
  remember t as x eqn:Hx;
  repeat ask_world Hx;
  world_eval_in Hx;
  subst x.

Ltac run_cases :=
  repeat match goal with
         | |- context [run_workflow ?w ?wf ?a ?b] =>
             eval_cases (run_workflow w wf a b)
         end.

Ltac run_facts :=
  cbn [unconcluded results_of state_of fst snd artifacts pages_site s3_bucket
       http_log trace started job_started run_failed conclusion_eqb existsb forallb
       filter List.length assoc String.eqb Ascii.eqb Bool.eqb andb orb negb].

Ltac exit_zero :=
  repeat match goal with
         | E : Z.eqb _ _ = true |- _ => apply Z.eqb_eq in E
         | E : Z.eqb _ _ = false |- _ => apply Z.eqb_neq in E
         end.

Ltac settle := intuition (discriminate || congruence || lia || eauto).

(** The scheduler's fuel suffices: in every world each job of the
    workflow gets a conclusion, in the order of the file. *)
Lemma every_job_concludes (w : World) (pages s3 : Tree) :
  let x := run_workflow w prod_deploy pages s3 in
  unconcluded x = []
  /\ map fst (results_of x) = map job_key (wf_jobs prod_deploy).
Proof.
  intros x. subst x. run_cases; run_facts; split; reflexivity.
Qed.

Lemma every_job_concludes_with_aws (w : World) (pages s3 : Tree) :
  let x := run_workflow w prod_deploy_with_aws pages s3 in
  unconcluded x = []
  /\ map fst (results_of x) = map job_key (wf_jobs prod_deploy_with_aws).
Proof.
  intros x. subst x. run_cases; run_facts; split; reflexivity.
Qed.

(** C1: when dependency installation or the build command exits with a
    status other than 0, the run concludes with the build job failed and
    both later jobs skipped; the upload step never starts, no artifact
    exists, no step of the publish job or of the check starts, and both
    hosting targets serve what they served before the run. *)
Theorem build_failure_halts_run (w : World) (pages s3 : Tree) :
  (w_exit w "npm ci --legacy-peer-deps" <> 0 \/ w_exit w "npm run build" <> 0)%Z ->
  let x := run_workflow w prod_deploy pages s3 in
  unconcluded x = []
  /\ results_of x
     = [("build", Failure); ("deploy_pages", Skipped); ("check_gh_deploy", Skipped)]
  /\ run_failed (results_of x) = true
  /\ artifacts (state_of x) = []
  /\ started "build" "Upload artifact" (state_of x) = false
  /\ job_started "deploy_pages" (state_of x) = false
  /\ job_started "check_gh_deploy" (state_of x) = false
  /\ pages_site (state_of x) = pages
  /\ s3_bucket (state_of x) = s3
  /\ http_log (state_of x) = [].
Proof.
  intros Hexit x. subst x. run_cases; run_facts; exit_zero.
  all: settle.
Qed.

Lemma build_failure_halts_run_witness :
  (w_exit Worlds.npm_ci_fails "npm ci --legacy-peer-deps" <> 0
   \/ w_exit Worlds.npm_ci_fails "npm run build" <> 0)%Z
  /\ results_of (run_workflow Worlds.npm_ci_fails prod_deploy Worlds.old_site [])
     = [("build", Failure); ("deploy_pages", Skipped); ("check_gh_deploy", Skipped)]
  /\ pages_site (state_of (run_workflow Worlds.npm_ci_fails prod_deploy Worlds.old_site []))
     = Worlds.old_site.
Proof.
  assert (H : (w_exit Worlds.npm_ci_fails "npm ci --legacy-peer-deps" <> 0
               \/ w_exit Worlds.npm_ci_fails "npm run build" <> 0)%Z)
    by (left; vm_compute; discriminate).
  split; [exact H |].
  pose proof (build_failure_halts_run Worlds.npm_ci_fails Worlds.old_site [] H) as T.
  cbv zeta in T. split; [apply T |].
  apply T.
Defined.

(** The same holds whatever makes the build job fail, a failed checkout
    for one. *)
Lemma failed_build_job_halts_run (w : World) (pages s3 : Tree) :
  let x := run_workflow w prod_deploy pages s3 in
  assoc "build" (results_of x) <> Some Success ->
  results_of x
  = [("build", Failure); ("deploy_pages", Skipped); ("check_gh_deploy", Skipped)]
  /\ artifacts (state_of x) = []
  /\ job_started "deploy_pages" (state_of x) = false
  /\ pages_site (state_of x) = pages.
Proof.
  intros x. subst x. run_cases; run_facts; settle.
Qed.

Lemma check_page_inputs :
  option_map Json.string_array (assoc "sites" (step_with Steps.check_page))
  = Some (Some ["https://phteven.space/"])
  /\ option_map Json.number_array (assoc "expected" (step_with Steps.check_page))
     = Some (Some [200%Z]).
Proof. split; reflexivity. Qed.

(** C3: the check starts exactly when the publish job has succeeded, and
    then as the last step of the run, after the deployment step; the run
    sends no request but the check's single GET to
    [https://phteven.space/]; the check succeeds exactly when it started,
    its action ran and the answer was 200; with any other answer the run
    fails. *)
Theorem verify_follows_publish_and_expects_200 (w : World) (pages s3 : Tree) :
  let x := run_workflow w prod_deploy pages s3 in
  let p := state_of x in
  (job_started "check_gh_deploy" p = true
   <-> assoc "deploy_pages" (results_of x) = Some Success)
  /\ (job_started "check_gh_deploy" p = true ->
      exists before,
        trace p = (before ++ [("check_gh_deploy", "Check github.io page")])%list
        /\ In ("deploy_pages", "Deploy to GitHub Pages") before)
  /\ (http_log p = [] \/ http_log p = [("GET", "https://phteven.space/")])
  /\ (job_started "check_gh_deploy" p = true ->
      w_action_ok w "check_gh_deploy" "Check github.io page" = true ->
      http_log p = [("GET", "https://phteven.space/")])
  /\ (assoc "check_gh_deploy" (results_of x) = Some Success
      <-> job_started "check_gh_deploy" p = true
          /\ w_action_ok w "check_gh_deploy" "Check github.io page" = true
          /\ w_status w "https://phteven.space/" = 200%Z)
  /\ (w_status w "https://phteven.space/" <> 200%Z -> run_failed (results_of x) = true).
Proof.
  intros x p. subst p x. run_cases; run_facts; exit_zero.
  all: repeat match goal with |- _ /\ _ => split end.
  all: try (intros _;
            exists [("build", "Checkout"); ("build", "Use Node.js"); ("build", "Build");
                    ("build", "Setup Pages"); ("build", "Upload artifact");
                    ("deploy_pages", "Deploy to GitHub Pages")];
            split; [reflexivity | cbn [In]; repeat ((left; reflexivity) || right)]).
  all: settle.
Qed.

(** C6: a run starts with no artifact.  When the world lets every step of
    the build job through, and only then, the build job succeeds, and the
    run's artifacts are then the one [github-pages] artifact holding what
    the build wrote to [./public]; when the build job does not succeed
    there is none.  When the world also lets the deployment step through,
    the publish job succeeds and the site serves exactly that artifact; a
    publish job that did not succeed has left the site alone.  The build
    step starts at most once in a run, and no job that publishes has a
    step that builds, or any shell step at all. *)
Theorem build_output_packaged_then_published (w : World) (pages s3 : Tree) :
  let x := run_workflow w prod_deploy pages s3 in
  let p := state_of x in
  let output := w_gatsby w (w_checkout w) in
  let build_let_through := forallb (step_ok w "build") (job_steps Jobs.build) in
  let deploy_let_through := step_ok w "deploy_pages" Steps.deploy_to_pages in
  artifacts (start_of_run pages s3) = []
  /\ assoc "path" (step_with Steps.upload_artifact) = Some "./public"
  /\ (build_let_through = true <-> assoc "build" (results_of x) = Some Success)
  /\ (build_let_through = true -> artifacts p = [(pages_artifact, output)])
  /\ (build_let_through && deploy_let_through = true
      <-> assoc "deploy_pages" (results_of x) = Some Success)
  /\ (build_let_through && deploy_let_through = true ->
      pages_site p = output /\ assoc pages_artifact (artifacts p) = Some (pages_site p))
  /\ (assoc "build" (results_of x) = Some Success ->
      artifacts p = [(pages_artifact, output)])
  /\ (assoc "build" (results_of x) <> Some Success -> artifacts p = [])
  /\ (assoc "deploy_pages" (results_of x) = Some Success ->
      pages_site p = output /\ assoc pages_artifact (artifacts p) = Some (pages_site p))
  /\ (assoc "deploy_pages" (results_of x) <> Some Success -> pages_site p = pages)
  /\ (List.length (filter (fun e : string * string => String.eqb (snd e) "Build") (trace p))
      <= 1)%nat
  /\ (forall j, In j (wf_jobs prod_deploy) -> is_publish_job j = true ->
      forallb (fun s => negb (is_build_step s)) (job_steps j) = true
      /\ flat_map step_run (job_steps j) = []).
Proof.
  intros x p output build_let_through deploy_let_through.
  assert (Hbuild : build_let_through
                   = (w_action_ok w "build" "Checkout"
                      && (w_action_ok w "build" "Use Node.js"
                      && ((Z.eqb (w_exit w "npm ci --legacy-peer-deps") 0
                           && (Z.eqb (w_exit w "npm run build") 0 && true))
                      && (w_action_ok w "build" "Setup Pages"
                      && (w_action_ok w "build" "Upload artifact" && true))))))
    by reflexivity.
  assert (Hdeploy : deploy_let_through
                    = w_action_ok w "deploy_pages" "Deploy to GitHub Pages")
    by reflexivity.
  rewrite Hbuild, Hdeploy. clear Hbuild Hdeploy build_let_through deploy_let_through.
  subst output p x.
  assert (Hstatic : forall j, In j (wf_jobs prod_deploy) -> is_publish_job j = true ->
            forallb (fun s => negb (is_build_step s)) (job_steps j) = true
            /\ flat_map step_run (job_steps j) = []).
  { intros j Hj Hpub. cbn in Hj.
    destruct Hj as [<- | [<- | [<- | []]]]; try discriminate Hpub; split; reflexivity. }
  run_cases; run_facts;
    repeat match goal with
           | A : _ = true |- _ => rewrite A
           | A : _ = false |- _ => rewrite A
           end;
    cbn [andb].
  all: repeat match goal with |- _ /\ _ => split end; try exact Hstatic.
  all: settle.
Qed.

Lemma build_output_packaged_then_published_witness :
  forallb (step_ok Worlds.fine "build") (job_steps Jobs.build)
  && step_ok Worlds.fine "deploy_pages" Steps.deploy_to_pages = true
  /\ artifacts (state_of (run_workflow Worlds.fine prod_deploy Worlds.old_site []))
     = [("github-pages", [("content/posts/foo.mdx", "<html>")])]
  /\ pages_site (state_of (run_workflow Worlds.fine prod_deploy Worlds.old_site []))
     = [("content/posts/foo.mdx", "<html>")].
Proof.
  assert (H : forallb (step_ok Worlds.fine "build") (job_steps Jobs.build)
              && step_ok Worlds.fine "deploy_pages" Steps.deploy_to_pages = true)
    by reflexivity.
  assert (Hb : forallb (step_ok Worlds.fine "build") (job_steps Jobs.build) = true)
    by reflexivity.
  split; [exact H |].
  pose proof (build_output_packaged_then_published Worlds.fine Worlds.old_site []) as T.
  cbv zeta in T.
  destruct T as (_ & _ & _ & Hart & _ & Hsite & _).
  split; [exact (Hart Hb) | exact (proj1 (Hsite H))].
Defined.

(** C7: the workflow has no [deploy_aws] job and no step that uses an AWS
    action; in every run no step of such a job starts, the job gets no
    conclusion, every step that starts belongs to one of the three jobs of
    the file, and the bucket holds what it held before the run.  The job
    is kept beside the workflow: putting it back gives the workflow with
    both targets. *)
Theorem aws_deploy_never_runs (w : World) (pages s3 : Tree) :
  let x := run_workflow w prod_deploy pages s3 in
  let p := state_of x in
  find (fun j => String.eqb (job_key j) "deploy_aws") (wf_jobs prod_deploy) = None
  /\ existsb (fun j => existsb is_aws_step (job_steps j)) (wf_jobs prod_deploy) = false
  /\ existsb is_aws_step (job_steps Jobs.deploy_aws) = true
  /\ wf_jobs prod_deploy_with_aws = (wf_jobs prod_deploy ++ [Jobs.deploy_aws])%list
  /\ job_started "deploy_aws" p = false
  /\ assoc "deploy_aws" (results_of x) = None
  /\ forallb (fun e : string * string =>
                existsb (String.eqb (fst e)) ["build"; "deploy_pages"; "check_gh_deploy"])
             (trace p) = true
  /\ s3_bucket p = s3.
Proof.
  intros x p. subst p x.
  do 4 (split; [reflexivity |]).
  run_cases; run_facts; settle.
Qed.

(** C9: run from any state, the check job leaves the site, the bucket and
    the artifacts as they are, whether it succeeds or fails; no job waits
    for the check; and in a run whose publish job succeeded the site
    serves the build output of that run at the end, in particular when the
    check has failed. *)
Theorem failed_check_leaves_site_published (w : World) (pages s3 : Tree) :
  let x := run_workflow w prod_deploy pages s3 in
  let p := state_of x in
  (forall q,
     pages_site (snd (run_job w Jobs.check_gh_deploy q)) = pages_site q
     /\ s3_bucket (snd (run_job w Jobs.check_gh_deploy q)) = s3_bucket q
     /\ artifacts (snd (run_job w Jobs.check_gh_deploy q)) = artifacts q)
  /\ forallb (fun j => negb (existsb (String.eqb "check_gh_deploy") (job_needs j)))
             (wf_jobs prod_deploy) = true
  /\ (assoc "deploy_pages" (results_of x) = Some Success ->
      pages_site p = w_gatsby w (w_checkout w))
  /\ (assoc "check_gh_deploy" (results_of x) = Some Failure ->
      assoc "deploy_pages" (results_of x) = Some Success
      /\ pages_site p = w_gatsby w (w_checkout w)).
Proof.
  intros x p. subst p x. split.
  { intros q. split.
    - apply run_steps_keeps_site. repeat constructor. discriminate.
    - eval_cases (run_job w Jobs.check_gh_deploy q); split; reflexivity. }
  split; [reflexivity |].
  run_cases; run_facts; settle.
Qed.

Lemma failed_check_leaves_site_published_witness :
  assoc "check_gh_deploy"
        (results_of (run_workflow Worlds.site_down prod_deploy Worlds.old_site []))
  = Some Failure
  /\ pages_site (state_of (run_workflow Worlds.site_down prod_deploy Worlds.old_site []))
     = w_gatsby Worlds.site_down (w_checkout Worlds.site_down).
Proof.
  assert (H : assoc "check_gh_deploy"
                (results_of (run_workflow Worlds.site_down prod_deploy Worlds.old_site []))
              = Some Failure) by reflexivity.
  split; [exact H |].
  apply (failed_check_leaves_site_published Worlds.site_down Worlds.old_site []), H.
Defined.

(** C8: with both targets enabled each publish job needs the build job and
    nothing else; each starts exactly when the build job has succeeded, so
    the failure of one does not keep the other from starting; and each
    concludes, and leaves its target, as it does in the workflow that has
    no other target. *)
Theorem publish_targets_are_independent (w : World) (pages s3 : Tree) :
  let both := run_workflow w prod_deploy_with_aws pages s3 in
  let pages_only := run_workflow w prod_deploy pages s3 in
  let aws_only := run_workflow w prod_deploy_aws_only pages s3 in
  job_needs Jobs.deploy_pages = ["build"]
  /\ job_needs Jobs.deploy_aws = ["build"]
  /\ (started "deploy_pages" "Deploy to GitHub Pages" (state_of both) = true
      <-> assoc "build" (results_of both) = Some Success)
  /\ (started "deploy_aws" "Get artifact from build step" (state_of both) = true
      <-> assoc "build" (results_of both) = Some Success)
  /\ (assoc "deploy_pages" (results_of both) = Some Failure ->
      started "deploy_aws" "Get artifact from build step" (state_of both) = true)
  /\ (assoc "deploy_aws" (results_of both) = Some Failure ->
      started "deploy_pages" "Deploy to GitHub Pages" (state_of both) = true)
  /\ assoc "deploy_pages" (results_of both) = assoc "deploy_pages" (results_of pages_only)
  /\ pages_site (state_of both) = pages_site (state_of pages_only)
  /\ assoc "deploy_aws" (results_of both) = assoc "deploy_aws" (results_of aws_only)
  /\ s3_bucket (state_of both) = s3_bucket (state_of aws_only).
Proof.
  intros both pages_only aws_only. subst both pages_only aws_only.
  do 2 (split; [reflexivity |]).
  run_cases; run_facts; settle.
Qed.

Lemma publish_targets_are_independent_witness :
  assoc "deploy_pages"
        (results_of (run_workflow Worlds.pages_refused prod_deploy_with_aws Worlds.old_site []))
  = Some Failure
  /\ started "deploy_aws" "Get artifact from build step"
             (state_of (run_workflow Worlds.pages_refused prod_deploy_with_aws
                                     Worlds.old_site []))
     = true.
Proof.
  assert (H : assoc "deploy_pages"
                (results_of (run_workflow Worlds.pages_refused prod_deploy_with_aws
                                          Worlds.old_site []))
              = Some Failure) by reflexivity.
  split; [exact H |].
  apply (publish_targets_are_independent Worlds.pages_refused Worlds.old_site []), H.
Defined.

(** ** Permissions *)

(** C10: in every job of the workflow the token reads the repository
    contents and cannot write them; the scopes it can write are [pages] and
    [id-token] and no other; the repository's default permissions play no
    part; the same holds in the earlier revision.  Of the two hosting
    targets a run changes the Pages site alone, and only to the build
    output of the run. *)
Theorem token_reads_contents_writes_pages (dflt : string -> Access)
    (wf : Workflow) (j : Job) (scope : string) :
  In wf [prod_deploy; prod_deploy_v1] ->
  In j (wf_jobs wf) ->
  token_permission dflt wf j "contents" = Read
  /\ (can_write (token_permission dflt wf j scope) = true
      <-> scope = "pages" \/ scope = "id-token")
  /\ (forall w pages s3,
        let p := state_of (run_workflow w prod_deploy pages s3) in
        s3_bucket p = s3
        /\ (pages_site p = pages \/ pages_site p = w_gatsby w (w_checkout w))).
Proof.
  intros Hwf Hj.
  assert (Hperm : forall s, token_permission dflt wf j s
                            = match assoc s permissions with
                              | Some level => access_of level
                              | None => NoAccess
                              end).
  { intros s. unfold token_permission.
    destruct Hwf as [<- | [<- | []]]; cbn in Hj;
      repeat (destruct Hj as [<- | Hj]; [reflexivity |]); destruct Hj. }
  split; [rewrite Hperm; reflexivity |]. split.
  - rewrite Hperm. unfold permissions. cbn [assoc].
    destruct (String.eqb_spec scope "contents") as [-> | _].
    { split; [discriminate | intros [[=] | [=]]]. }
    destruct (String.eqb_spec scope "pages") as [-> | Hp].
    { split; [now left | reflexivity]. }
    destruct (String.eqb_spec scope "id-token") as [-> | Hi].
    { split; [now right | reflexivity]. }
    split; [discriminate | intros [-> | ->]; [now elim Hp | now elim Hi]].
  - intros w pages s3 p. subst p. run_cases; run_facts; settle.
Qed.

Lemma token_reads_contents_writes_pages_witness :
  In prod_deploy [prod_deploy; prod_deploy_v1]
  /\ In Jobs.deploy_pages (wf_jobs prod_deploy)
  /\ token_permission (fun _ => Write) prod_deploy Jobs.deploy_pages "contents" = Read
  /\ can_write (token_permission (fun _ => Write) prod_deploy Jobs.deploy_pages "pages")
     = true.
Proof.
  assert (Hwf : In prod_deploy [prod_deploy; prod_deploy_v1]) by (left; reflexivity).
  assert (Hj : In Jobs.deploy_pages (wf_jobs prod_deploy)) by (right; left; reflexivity).
  split; [exact Hwf |]. split; [exact Hj |].
  destruct (token_reads_contents_writes_pages (fun _ => Write) prod_deploy
              Jobs.deploy_pages "pages" Hwf Hj) as (Hread & Hwrite & _).
  split; [exact Hread |]. apply Hwrite. now left.
Defined.

(** ** The earlier revision *)

(** X11: the earlier revision has no upload step, so no run of it has an
    artifact: the deployment step, when it starts, finds none, the publish
    job never succeeds and the site stays as it was. *)
Lemma v1_site_never_changes (w : World) (pages s3 : Tree) :
  let x := run_workflow w prod_deploy_v1 pages s3 in
  artifacts (state_of x) = []
  /\ assoc "deploy_pages" (results_of x) <> Some Success
  /\ pages_site (state_of x) = pages.
Proof.
  intros x. subst x. run_cases; run_facts; settle.
Qed.

(** Its uncommented [deploy_aws] declares no [needs]: in the interpreter,
    which does not look at [runs-on], its first step starts in every run,
    also when the build job fails. *)
Lemma v1_deploy_aws_starts_in_every_run (w : World) (pages s3 : Tree) :
  let x := run_workflow w prod_deploy_v1 pages s3 in
  job_needs JobsV1.deploy_aws = []
  /\ job_runs_on JobsV1.deploy_aws = None
  /\ started "deploy_aws" "Configure AWS Credentials" (state_of x) = true.
Proof.
  intros x. subst x. do 2 (split; [reflexivity |]).
  run_cases; run_facts; settle.
Qed.

(** ** The concurrency group *)

Lemma find_by_id_map (f : Run -> Run) (id : nat) (q : list Run) :
  (forall r, run_id (f r) = run_id r) ->
  find (fun r => Nat.eqb (run_id r) id) (map f q)
  = option_map f (find (fun r => Nat.eqb (run_id r) id) q).
Proof.
  intros Hid. induction q as [| r q IH]; cbn [map find]; [reflexivity |].
  rewrite Hid. destruct (Nat.eqb (run_id r) id); [reflexivity | exact IH].
Qed.

Lemma find_by_id_app (id : nat) (q l : list Run) (r : Run) :
  find (fun r' => Nat.eqb (run_id r') id) q = Some r ->
  find (fun r' => Nat.eqb (run_id r') id) (q ++ l) = Some r.
Proof.
  induction q as [| r0 q IH]; cbn [app find]; [discriminate |].
  destruct (Nat.eqb (run_id r0) id); [trivial | exact IH].
Qed.

Lemma find_by_id_unique (q : list Run) (r : Run) :
  NoDup (map run_id q) -> In r q ->
  find (fun r' => Nat.eqb (run_id r') (run_id r)) q = Some r.
Proof.
  induction q as [| r0 q IH]; cbn [map find]; intros Hnd Hin; [destruct Hin |].
  inversion Hnd as [| ? ? Hnotin Hnd']; subst.
  destruct Hin as [-> | Hin].
  - now rewrite Nat.eqb_refl.
  - destruct (Nat.eqb_spec (run_id r0) (run_id r)) as [E | _]; [| now apply IH].
    elim Hnotin. rewrite E. now apply in_map.
Qed.

Lemma cancel_if_id (t : Run -> bool) (r : Run) : run_id (cancel_if t r) = run_id r.
Proof. unfold cancel_if. now destruct (t r). Qed.

Lemma cancel_if_group (t : Run -> bool) (r : Run) : run_group (cancel_if t r) = run_group r.
Proof. unfold cancel_if. now destruct (t r). Qed.

Lemma cancel_if_cancelled (t : Run -> bool) (r : Run) :
  run_status r = Cancelled -> run_status (cancel_if t r) = Cancelled.
Proof. unfold cancel_if. now destruct (t r). Qed.

Lemma active_in_app (g : string) (q l : list Run) :
  active_in g (q ++ l) = active_in g q + active_in g l.
Proof. unfold active_in. now rewrite filter_app, length_app. Qed.

Lemma active_in_map_le (g : string) (f : Run -> Run) (q : list Run) :
  Forall (fun r => in_group g (f r) && is_active (f r) = true ->
                   in_group g r && is_active r = true) q ->
  active_in g (map f q) <= active_in g q.
Proof.
  unfold active_in. induction 1 as [| r q Hr _ IH]; cbn [map filter]; [apply le_n |].
  destruct (in_group g (f r) && is_active (f r)) eqn:E.
  - rewrite (Hr eq_refl). cbn [List.length]. lia.
  - destruct (in_group g r && is_active r); cbn [List.length]; lia.
Qed.

(** Once cancelled a run stays cancelled, whatever the workflow and
    whatever happens next. *)
Lemma cancelled_is_final (wf : Workflow) (q : list Run) (ev : SchedEvent) (id : nat) :
  status_of id q = Some Cancelled ->
  status_of id (sched_step wf q ev) = Some Cancelled.
Proof.
  unfold status_of. intros H.
  destruct (find (fun r => Nat.eqb (run_id r) id) q) as [r |] eqn:Hfind;
    [| discriminate H].
  injection H as Hst.
  assert (Happ : forall l, option_map run_status
                             (find (fun r' => Nat.eqb (run_id r') id) (q ++ l))
                           = Some Cancelled).
  { intros l. now rewrite (find_by_id_app id q l r Hfind), <- Hst. }
  assert (Hmap : forall t l, option_map run_status
                   (find (fun r' => Nat.eqb (run_id r') id) (map (cancel_if t) q ++ l))
                 = Some Cancelled).
  { intros t l. erewrite find_by_id_app.
    - cbn [option_map]. now rewrite (cancel_if_cancelled t r Hst).
    - rewrite find_by_id_map by apply cancel_if_id. now rewrite Hfind. }
  destruct ev as [e | id']; cbn [sched_step].
  - destruct (triggers wf e); [| now rewrite Hfind, <- Hst].
    unfold enqueue. destruct (wf_concurrency wf) as [c |]; [| apply Happ].
    destruct (cancel_in_progress c); [apply Hmap |].
    destruct (existsb _ q); [apply Hmap | apply Happ].
  - unfold finish.
    destruct (find (fun r0 => Nat.eqb (run_id r0) id') q) as [r1 |] eqn:Hfind';
      [| now rewrite Hfind, <- Hst].
    destruct (is_active r1) eqn:Hact; [| now rewrite Hfind, <- Hst].
    rewrite find_by_id_map.
    + rewrite Hfind. cbn [option_map].
      destruct (Nat.eqb_spec (run_id r) id') as [E | _].
      * (* the run to finish is the cancelled one: it is not active *)
        pose proof (find_some _ _ Hfind) as [_ Hid].
        apply Nat.eqb_eq in Hid.
        assert (id' = id) as -> by congruence.
        rewrite Hfind in Hfind'. injection Hfind' as <-.
        unfold is_active in Hact. rewrite Hst in Hact. discriminate Hact.
      * destruct (run_group r1) as [g1 |]; [| now rewrite Hst].
        unfold is_pending. rewrite Hst, andb_false_r. now rewrite Hst.
    + intros r0. destruct (Nat.eqb (run_id r0) id'); [reflexivity |].
      destruct (run_group r1); [| reflexivity].
      now destruct (in_group s r0 && is_pending r0).
Qed.

Lemma cancelled_stays_cancelled (wf : Workflow) (evs : list SchedEvent) (q : list Run)
    (id : nat) :
  status_of id q = Some Cancelled ->
  status_of id (sched_run wf evs q) = Some Cancelled.
Proof.
  revert q. induction evs as [| ev evs IH]; intros q H; cbn [sched_run fold_left].
  - exact H.
  - apply IH. now apply cancelled_is_final.
Qed.


Section CancelInProgress.

Variable wf : Workflow.
Variable c : Concurrency.
Hypothesis Hconc : wf_concurrency wf = Some c.
Hypothesis Hcancel : cancel_in_progress c = true.

Lemma enqueue_cancels (q : list Run) :
  enqueue wf q
  = (map (cancel_if (superseded c)) q
       ++ [mkRun (List.length q) (Some (group c)) InProgress])%list.
Proof. unfold enqueue. now rewrite Hconc, Hcancel. Qed.

Lemma in_own_group (r : Run) : run_group r = Some (group c) -> in_group (group c) r = true.
Proof. unfold in_group. intros ->. apply String.eqb_refl. Qed.

Lemma none_active_after_cancel (q : list Run) :
  Forall (fun r => run_group r = Some (group c) /\ is_pending r = false) q ->
  filter is_active (map (cancel_if (superseded c)) q) = [].
Proof.
  induction 1 as [| r q [Hg _] _ IH]; cbn [map filter]; [reflexivity |].
  unfold cancel_if at 1, superseded at 1. rewrite (in_own_group r Hg).
  destruct (is_active r) eqn:Hact; cbn [andb orb].
  - exact IH.
  - destruct (is_pending r); cbn [is_active with_status run_status]; [exact IH |].
    now rewrite Hact.
Qed.

Lemma active_in_le_active (g' : string) (q : list Run) :
  active_in g' q <= List.length (filter is_active q).
Proof.
  unfold active_in. induction q as [| r q IH]; cbn [filter]; [apply le_n |].
  destruct (in_group g' r); cbn [andb]; destruct (is_active r); cbn [List.length]; lia.
Qed.

Lemma queue_ok_enqueue (q : list Run) :
  queue_ok (group c) q -> queue_ok (group c) (enqueue wf q).
Proof.
  intros (Hids & Hall & _). rewrite enqueue_cancels. repeat split.
  - rewrite map_app, map_map, length_app, length_map. cbn [map List.length].
    rewrite Nat.add_1_r, seq_S. cbn [Nat.add]. f_equal.
    rewrite <- Hids. apply map_ext. intros r. apply cancel_if_id.
  - apply Forall_app. split.
    + apply Forall_map. revert Hall. apply Forall_impl. intros r [Hg Hp].
      rewrite cancel_if_group. split; [exact Hg |].
      unfold cancel_if. now destruct (superseded c r).
    + constructor; [| constructor]. now split.
  - rewrite active_in_app.
    pose proof (active_in_le_active (group c) (map (cancel_if (superseded c)) q)) as Hle.
    rewrite (none_active_after_cancel q Hall) in Hle. cbn [List.length] in Hle.
    unfold active_in at 2. cbn [filter]. unfold in_group. cbn [run_group].
    rewrite String.eqb_refl. cbn [andb is_active run_status List.length]. lia.
Qed.

Lemma queue_ok_finish (id : nat) (q : list Run) :
  queue_ok (group c) q -> queue_ok (group c) (finish id q).
Proof.
  intros Hok. unfold finish.
  destruct (find (fun r => Nat.eqb (run_id r) id) q) as [r |]; [| exact Hok].
  destruct (is_active r); [| exact Hok].
  destruct Hok as (Hids & Hall & Hact).
  set (f := fun r' : Run =>
              if Nat.eqb (run_id r') id then with_status Completed r'
              else match run_group r with
                   | Some g =>
                       if in_group g r' && is_pending r' then with_status InProgress r'
                       else r'
                   | None => r'
                   end).
  assert (Hf : forall r', is_pending r' = false ->
                 run_id (f r') = run_id r' /\ run_group (f r') = run_group r'
                 /\ is_pending (f r') = false
                 /\ (is_active (f r') = true -> is_active r' = true)).
  { intros r' Hp. unfold f. destruct (Nat.eqb (run_id r') id).
    - repeat split. discriminate.
    - destruct (run_group r); [| now repeat split].
      rewrite Hp, andb_false_r. now repeat split. }
  repeat split.
  - rewrite length_map, <- Hids, map_map. apply map_ext_in. intros r' Hin.
    rewrite Forall_forall in Hall. now apply Hf, Hall.
  - apply Forall_map. rewrite Forall_forall in *. intros r' Hin.
    destruct (Hall r' Hin) as [Hg Hp]. destruct (Hf r' Hp) as (_ & Hg' & Hp' & _).
    split; congruence.
  - etransitivity; [| exact Hact]. apply active_in_map_le.
    rewrite Forall_forall in *. intros r' Hin. destruct (Hall r' Hin) as [Hg Hp].
    destruct (Hf r' Hp) as (_ & Hg' & _ & Ha).
    unfold in_group. rewrite Hg', Hg, String.eqb_refl. cbn [andb]. exact Ha.
Qed.

Lemma reachable_queue_ok (q : list Run) : reachable wf q -> queue_ok (group c) q.
Proof.
  induction 1 as [| q ev _ IH].
  - repeat split; [constructor | apply Nat.le_0_l].
  - destruct ev as [e | id]; cbn [sched_step].
    + destruct (triggers wf e); [now apply queue_ok_enqueue | exact IH].
    + now apply queue_ok_finish.
Qed.

Lemma one_active_in_any_group (q : list Run) (g' : string) :
  reachable wf q -> active_in g' q <= 1.
Proof.
  intros Hq. destruct (reachable_queue_ok q Hq) as (_ & Hall & Hact).
  destruct (String.eqb_spec g' (group c)) as [-> | Hne]; [exact Hact |].
  unfold active_in. replace (filter _ q) with (@nil Run); [apply Nat.le_0_l |].
  symmetry. clear Hq Hact.
  induction Hall as [| r q [Hg _] _ IH]; cbn [filter]; [reflexivity |].
  unfold in_group at 1. rewrite Hg.
  destruct (String.eqb_spec g' (group c)) as [E | _]; [now elim Hne |].
  cbn [andb]. exact IH.
Qed.

Lemma new_run_supersedes (q : list Run) (e : Event) (r : Run) :
  reachable wf q -> triggers wf e = true -> In r q ->
  status_of (run_id r) (sched_step wf q (Fire e))
  = Some (if is_active r then Cancelled else run_status r)
  /\ filter is_active (sched_step wf q (Fire e))
     = [mkRun (List.length q) (Some (group c)) InProgress].
Proof.
  intros Hq He Hin. destruct (reachable_queue_ok q Hq) as (Hids & Hall & _).
  cbn [sched_step]. rewrite He, enqueue_cancels. split.
  - unfold status_of. erewrite find_by_id_app.
    2:{ rewrite find_by_id_map by apply cancel_if_id.
        rewrite find_by_id_unique; [reflexivity | | exact Hin].
        rewrite Hids. apply seq_NoDup. }
    cbn [option_map]. f_equal. rewrite Forall_forall in Hall.
    destruct (Hall r Hin) as [Hg Hp].
    unfold cancel_if, superseded. rewrite (in_own_group r Hg), Hp.
    destruct (is_active r); reflexivity.
  - rewrite filter_app, (none_active_after_cancel q Hall). reflexivity.
Qed.

End CancelInProgress.

(** C2: in every queue the platform can reach for this workflow at most one
    run is in progress in any concurrency group; a new run, whatever
    branch its event names, joins the one group [pages], and every run
    that was in progress is cancelled by it, the new run being the only
    one in progress; and the cancelled run stays cancelled whatever
    happens after, so it never completes. *)
Theorem one_active_run_per_group (q : list Run) :
  reachable prod_deploy q ->
  (forall g, active_in g q <= 1)
  /\ (forall e r,
        triggers prod_deploy e = true -> In r q -> is_active r = true ->
        let q' := sched_step prod_deploy q (Fire e) in
        status_of (run_id r) q' = Some Cancelled
        /\ filter is_active q' = [mkRun (List.length q) (Some "pages") InProgress]
        /\ forall evs, status_of (run_id r) (sched_run prod_deploy evs q') = Some Cancelled).
Proof.
  intros Hq. split.
  - intros g. now apply (one_active_in_any_group prod_deploy concurrency).
  - intros e r He Hin Hact q'.
    destruct (new_run_supersedes prod_deploy concurrency eq_refl eq_refl q e r Hq He Hin)
      as [Hst Hone].
    rewrite Hact in Hst. repeat split.
    + exact Hst.
    + exact Hone.
    + intros evs. now apply cancelled_stays_cancelled.
Qed.

Lemma one_active_run_per_group_witness :
  reachable prod_deploy (sched_run prod_deploy [Fire (push_to "main")] [])
  /\ status_of 0 (sched_run prod_deploy [Fire (push_to "main"); Fire (push_to "main")] [])
     = Some Cancelled
  /\ status_of 0 (sched_run prod_deploy
                            [Fire (push_to "main"); Fire (push_to "main"); Finish 0; Finish 1] [])
     = Some Cancelled.
Proof.
  assert (H : reachable prod_deploy (sched_run prod_deploy [Fire (push_to "main")] []))
    by exact (reach_step prod_deploy [] (Fire (push_to "main")) (reach_empty prod_deploy)).
  split; [exact H |].
  destruct (one_active_run_per_group _ H) as [_ Hnew].
  specialize (Hnew (push_to "main") (mkRun 0 (Some "pages") InProgress) eq_refl
                   (or_introl eq_refl) eq_refl).
  cbv zeta in Hnew. destruct Hnew as (Hst & _ & Hlater).
  split; [exact Hst | exact (Hlater [Finish 0; Finish 1])].
Defined.

(** The earlier revision has the same [concurrency] block. *)
Lemma v1_one_active_run_per_group (q : list Run) (g : string) :
  reachable prod_deploy_v1 q -> active_in g q <= 1.
Proof. now apply (one_active_in_any_group prod_deploy_v1 concurrency). Qed.

(** Without [cancel-in-progress] the newer run waits and the older one
    completes. *)
Example without_cancel_the_older_run_completes :
  let wf := mkWorkflow "Deploy code" on_events (Some permissions)
                       (Some (mkConcurrency "pages" false)) (wf_jobs prod_deploy) in
  map run_status (sched_run wf [Fire (push_to "main"); Fire (push_to "main")] [])
  = [InProgress; Pending]
  /\ map run_status
         (sched_run wf [Fire (push_to "main"); Fire (push_to "main"); Finish 0] [])
     = [Completed; InProgress].
Proof. split; reflexivity. Qed.

(** * Further properties *)

(** ** Which events can cancel a run *)

(** X2: an event other than a push to [main] leaves the queue of runs as
    it is, whatever the queue: it cancels no run in progress. *)
Theorem only_push_to_main_cancels (wf : Workflow) (q : list Run) (e : Event) :
  In wf [prod_deploy; prod_deploy_v1] ->
  e <> push_to "main" ->
  sched_step wf q (Fire e) = q.
Proof.
  intros Hwf Hne. cbn [sched_step].
  destruct (triggers wf e) eqn:E; [| reflexivity].
  elim Hne. apply (triggers_on_events wf e); [| exact E].
  destruct Hwf as [<- | [<- | []]]; reflexivity.
Qed.

Lemma only_push_to_main_cancels_witness :
  In prod_deploy [prod_deploy; prod_deploy_v1]
  /\ manual_dispatch "main" <> push_to "main"
  /\ sched_run prod_deploy [Fire (push_to "main"); Fire (manual_dispatch "main")] []
     = [mkRun 0 (Some "pages") InProgress].
Proof.
  assert (Hwf : In prod_deploy [prod_deploy; prod_deploy_v1]) by (left; reflexivity).
  assert (Hne : manual_dispatch "main" <> push_to "main") by discriminate.
  split; [exact Hwf |]. split; [exact Hne |].
  exact (only_push_to_main_cancels prod_deploy [mkRun 0 (Some "pages") InProgress]
           (manual_dispatch "main") Hwf Hne).
Defined.

(** ** Permissions *)

(** X9: in every job of either revision, and for every scope but
    [metadata] (which the platform lets every token read and which the
    block does not list), the token has access, of any kind, exactly when
    the scope is one of the three the [permissions] block lists, whatever
    the repository's default is. *)
Theorem token_reaches_three_scopes (dflt : string -> Access)
    (wf : Workflow) (j : Job) (scope : string) :
  In wf [prod_deploy; prod_deploy_v1] ->
  In j (wf_jobs wf) ->
  scope <> "metadata" ->
  (token_permission dflt wf j scope <> NoAccess
   <-> scope = "contents" \/ scope = "pages" \/ scope = "id-token").
Proof.
  intros Hwf Hj _.
  assert (Hperm : token_permission dflt wf j scope
                  = match assoc scope permissions with
                    | Some level => access_of level
                    | None => NoAccess
                    end).
  { unfold token_permission.
    destruct Hwf as [<- | [<- | []]]; cbn in Hj;
      repeat (destruct Hj as [<- | Hj]; [reflexivity |]); destruct Hj. }
  rewrite Hperm. unfold permissions. cbn [assoc].
  destruct (String.eqb_spec scope "contents") as [-> | Hc].
  { split; [now left | discriminate]. }
  destruct (String.eqb_spec scope "pages") as [-> | Hp].
  { split; [now right; left | discriminate]. }
  destruct (String.eqb_spec scope "id-token") as [-> | Hi].
  { split; [now right; right | discriminate]. }
  split; [intros H; now elim H | intros [-> | [-> | ->]]; congruence].
Qed.

Lemma token_reaches_three_scopes_witness :
  In prod_deploy [prod_deploy; prod_deploy_v1]
  /\ In Jobs.build (wf_jobs prod_deploy)
  /\ "actions" <> "metadata"
  /\ ~ token_permission (fun _ => Write) prod_deploy Jobs.build "actions" <> NoAccess.
Proof.
  assert (Hwf : In prod_deploy [prod_deploy; prod_deploy_v1]) by (left; reflexivity).
  assert (Hj : In Jobs.build (wf_jobs prod_deploy)) by (left; reflexivity).
  assert (Hm : "actions" <> "metadata") by discriminate.
  split; [exact Hwf |]. split; [exact Hj |]. split; [exact Hm |].
  intros H.
  apply (token_reaches_three_scopes (fun _ => Write) prod_deploy Jobs.build "actions"
           Hwf Hj Hm) in H.
  destruct H as [H | [H | H]]; discriminate H.
Defined.

(** ** The courses a run can take *)

(** X4: at most one job of a run fails; when a job has failed, the jobs
    before it in the chain of [needs] have succeeded and the jobs after it
    are skipped. *)
Theorem at_most_one_job_fails (w : World) (pages s3 : Tree) :
  let res := results_of (run_workflow w prod_deploy pages s3) in
  (List.length (filter (fun jc : string * Conclusion => conclusion_eqb (snd jc) Failure) res)
   <= 1)%nat
  /\ (assoc "build" res = Some Failure ->
      assoc "deploy_pages" res = Some Skipped /\ assoc "check_gh_deploy" res = Some Skipped)
  /\ (assoc "deploy_pages" res = Some Failure ->
      assoc "build" res = Some Success /\ assoc "check_gh_deploy" res = Some Skipped)
  /\ (assoc "check_gh_deploy" res = Some Failure ->
      assoc "build" res = Some Success /\ assoc "deploy_pages" res = Some Success).
Proof.
  intros res. subst res. run_cases; run_facts; settle.
Qed.

(** X5: a run whose three jobs all succeeded has been let through at
    every step and has got a 200 from the site; the site serves the build
    output of the run, the run has sent its one request, and every step of
    the file has started, in the order of the file. *)
Theorem green_run_is_deployed_and_checked (w : World) (pages s3 : Tree) :
  let x := run_workflow w prod_deploy pages s3 in
  map snd (results_of x) = [Success; Success; Success] ->
  all_steps_ok w prod_deploy = true
  /\ w_status w "https://phteven.space/" = 200%Z
  /\ pages_site (state_of x) = w_gatsby w (w_checkout w)
  /\ artifacts (state_of x) = [(pages_artifact, pages_site (state_of x))]
  /\ http_log (state_of x) = [("GET", "https://phteven.space/")]
  /\ trace (state_of x) = file_order prod_deploy.
Proof.
  intros x. subst x.
  assert (Hok : all_steps_ok w prod_deploy
                = (w_action_ok w "build" "Checkout"
                   && (w_action_ok w "build" "Use Node.js"
                   && ((Z.eqb (w_exit w "npm ci --legacy-peer-deps") 0
                        && (Z.eqb (w_exit w "npm run build") 0 && true))
                   && (w_action_ok w "build" "Setup Pages"
                   && (w_action_ok w "build" "Upload artifact" && true))))
                   && ((w_action_ok w "deploy_pages" "Deploy to GitHub Pages" && true)
                   && ((w_action_ok w "check_gh_deploy" "Check github.io page" && true)
                   && true)))) by reflexivity.
  rewrite Hok. clear Hok.
  run_cases; run_facts; cbn [map snd];
    repeat match goal with A : _ = true |- _ => rewrite A | A : _ = false |- _ => rewrite A end;
    exit_zero; cbn [andb]; settle.
Qed.

Lemma green_run_is_deployed_and_checked_witness :
  map snd (results_of (run_workflow Worlds.fine prod_deploy Worlds.old_site []))
  = [Success; Success; Success]
  /\ pages_site (state_of (run_workflow Worlds.fine prod_deploy Worlds.old_site []))
     = [("content/posts/foo.mdx", "<html>")]
  /\ http_log (state_of (run_workflow Worlds.fine prod_deploy Worlds.old_site []))
     = [("GET", "https://phteven.space/")].
Proof.
  assert (H : map snd (results_of (run_workflow Worlds.fine prod_deploy Worlds.old_site []))
              = [Success; Success; Success]) by reflexivity.
  split; [exact H |].
  destruct (green_run_is_deployed_and_checked Worlds.fine Worlds.old_site [] H)
    as (_ & _ & Hsite & _ & Hlog & _).
  split; [exact Hsite | exact Hlog].
Defined.


(** X10: with both targets enabled a build job that does not succeed
    stops both: neither publish job starts a step, both are skipped with
    the check, and site and bucket serve what they served before. *)
Theorem failed_build_stops_both_targets (w : World) (pages s3 : Tree) :
  let x := run_workflow w prod_deploy_with_aws pages s3 in
  assoc "build" (results_of x) <> Some Success ->
  results_of x
  = [("build", Failure); ("deploy_pages", Skipped); ("check_gh_deploy", Skipped);
     ("deploy_aws", Skipped)]
  /\ job_started "deploy_pages" (state_of x) = false
  /\ job_started "deploy_aws" (state_of x) = false
  /\ pages_site (state_of x) = pages
  /\ s3_bucket (state_of x) = s3.
Proof.
  intros x. subst x. run_cases; run_facts; settle.
Qed.

Lemma failed_build_stops_both_targets_witness :
  assoc "build"
        (results_of (run_workflow Worlds.npm_ci_fails prod_deploy_with_aws Worlds.old_site []))
  <> Some Success
  /\ job_started "deploy_aws"
       (state_of (run_workflow Worlds.npm_ci_fails prod_deploy_with_aws Worlds.old_site []))
     = false.
Proof.
  assert (H : assoc "build"
                (results_of (run_workflow Worlds.npm_ci_fails prod_deploy_with_aws
                                          Worlds.old_site []))
              <> Some Success) by (vm_compute; discriminate).
  split; [exact H |].
  apply (failed_build_stops_both_targets Worlds.npm_ci_fails Worlds.old_site [] H).
Defined.

(** X3: when the world refuses any one step of the build job, the
    checkout as well as the build script, the run concludes with the build
    job failed and the later jobs skipped; no step of the publish job
    starts, no request is sent, no artifact exists, and the site serves
    what it served before. *)
Theorem refused_build_step_halts_run (w : World) (pages s3 : Tree) (s : Step) :
  In s (job_steps Jobs.build) ->
  step_ok w "build" s = false ->
  let x := run_workflow w prod_deploy pages s3 in
  results_of x
  = [("build", Failure); ("deploy_pages", Skipped); ("check_gh_deploy", Skipped)]
  /\ artifacts (state_of x) = []
  /\ job_started "deploy_pages" (state_of x) = false
  /\ job_started "check_gh_deploy" (state_of x) = false
  /\ http_log (state_of x) = []
  /\ pages_site (state_of x) = pages.
Proof.
  intros Hin Hno x. subst x.
  cbn [job_steps Jobs.build In] in Hin.
  assert (Hsome : w_action_ok w "build" "Checkout" = false
                  \/ w_action_ok w "build" "Use Node.js" = false
                  \/ Z.eqb (w_exit w "npm ci --legacy-peer-deps") 0 = false
                  \/ Z.eqb (w_exit w "npm run build") 0 = false
                  \/ w_action_ok w "build" "Setup Pages" = false
                  \/ w_action_ok w "build" "Upload artifact" = false).
  { destruct Hin as [<- | [<- | [<- | [<- | [<- | []]]]]];
      cbn [step_ok step_uses step_name step_run Steps.checkout Steps.use_node Steps.build
           Steps.setup_pages Steps.upload_artifact uses runs forallb] in Hno;
      try tauto.
    rewrite andb_true_r in Hno. apply andb_false_iff in Hno. tauto. }
  clear Hin Hno. run_cases; run_facts; settle.
Qed.

Lemma refused_build_step_halts_run_witness :
  In Steps.checkout (job_steps Jobs.build)
  /\ step_ok Worlds.checkout_fails "build" Steps.checkout = false
  /\ results_of (run_workflow Worlds.checkout_fails prod_deploy Worlds.old_site [])
     = [("build", Failure); ("deploy_pages", Skipped); ("check_gh_deploy", Skipped)].
Proof.
  assert (Hin : In Steps.checkout (job_steps Jobs.build)) by (left; reflexivity).
  assert (Hno : step_ok Worlds.checkout_fails "build" Steps.checkout = false) by reflexivity.
  split; [exact Hin |]. split; [exact Hno |].
  apply (refused_build_step_halts_run Worlds.checkout_fails Worlds.old_site [] Steps.checkout
           Hin Hno).
Defined.
